(** * genbank2gff: a GenBank to GFF conversion script

    Shallow embedding of [sandbox/genbank2gff.py] and the properties of its
    conversion contract.

    The script is straight-line glue code:
<<
      parser = OptionParser(usage=usage, version=version, ...)
      (options, args) = parser.parse_args()
      in_file = sys.argv[1]
      out_file = sys.argv[2]
      in_handle = open(in_file)
      out_handle = open(out_file, "w")
      GFF.write(SeqIO.parse(in_handle, "genbank"), out_handle)
      in_handle.close()
      out_handle.close()
>>
    It is embedded as a computation in a state-and-exception monad over a
    process state (file system, table of file objects, standard output, trace
    of file operations).  The GenBank parser and the GFF row serialiser are
    external libraries (Biopython, BCBio): they are the fields of the class
    [Library], and every result is proved for an arbitrary library. *)

From stdpp Require Import base strings gmap list.
From Stdlib Require Import Ascii ZArith Lia.

Local Open Scope Z_scope.
Local Open Scope stdpp_scope.

(** ** Strings *)

Module Str.

Definition tab : ascii := "009"%char.
Definition nl : ascii := "010"%char.
Definition hash : ascii := "#"%char.

Definition TAB : string := String tab EmptyString.
Definition NL : string := String nl EmptyString.

(** [c in s] *)
Fixpoint mem (c : ascii) (s : string) : bool :=
  match s with
  | EmptyString => false
  | String d s' => if Ascii.eqb c d then true else mem c s'
  end.

(** [s.split(c, 1)]: the text before the first [c] and the text after it. *)
Fixpoint split1 (c : ascii) (s : string) : option (string * string) :=
  match s with
  | EmptyString => None
  | String d s' =>
      if Ascii.eqb c d then Some (EmptyString, s')
      else match split1 c s' with
           | Some (a, b) => Some (String d a, b)
           | None => None
           end
  end.

(** [t.startswith(s)] *)
Definition startswith (t s : string) : bool := String.prefix s t.

(** [s.splitlines()] for text whose only line terminator is the newline. *)
Fixpoint lines (s : string) : list string :=
  match s with
  | EmptyString => []
  | String d s' =>
      if Ascii.eqb d nl then EmptyString :: lines s'
      else match lines s' with
           | [] => [String d EmptyString]
           | l :: ls => String d l :: ls
           end
  end.

End Str.

(** ** The option parser

    [OptionParser(usage=..., version="0.1", ...)] with no option of the
    script's own knows exactly the two options optparse adds itself:
    [--version] and [-h]/[--help].  [parse_args] is optparse's
    [_process_args] loop for that configuration. *)

Module OptParse.

Inductive action :=
| Help                      (* print_help(); exit(0) *)
| Version                   (* print_version(); exit(0) *)
| Usage_error (msg : string). (* error(msg): usage on stderr, exit(2) *)

(** [self._long_opt], in the order the options are added
    ([_add_version_option] before [_add_help_option]). *)
Definition long_opt : list (string * action) :=
  [("--version", Version); ("--help", Help)].

(** [_match_abbrev(s, wordmap)] *)
Definition match_abbrev (s : string) : string + action :=
  if bool_decide (s ∈ long_opt.*1) then inl s
  else match filter (fun w => Is_true (Str.startswith w s)) (long_opt.*1) with
       | [w] => inl w
       | [] => inr (Usage_error ("no such option: " +:+ s))
       | _ => inr (Usage_error ("ambiguous option: " +:+ s))
       end.

Definition lookup_long (opt : string) : action :=
  match list_find (fun p => p.1 = opt) long_opt with
  | Some (_, (_, a)) => a
  | None => Usage_error ("no such option: " +:+ opt)
  end.

(** [_process_long_opt]: neither option takes a value, so an explicit
    [=value] is an error and the option is processed otherwise; both
    options end the program. *)
Definition process_long_opt (arg : string) : action :=
  let '(opt, had_explicit_value) :=
    match Str.split1 "="%char arg with
    | Some (opt, _) => (opt, true)
    | None => (arg, false)
    end in
  match match_abbrev opt with
  | inr err => err
  | inl opt =>
      if had_explicit_value : bool
      then Usage_error (opt +:+ " option does not take a value")
      else lookup_long opt
  end.

(** [_process_short_opts]: the first character after the dash decides,
    since [-h] ends the program and anything else is an error. *)
Definition process_short_opts (arg : string) : action :=
  match arg with
  | String _ (String ch _) =>
      if Ascii.eqb ch "h"%char then Help
      else Usage_error ("no such option: -" +:+ String ch EmptyString)
  | _ => Usage_error ("no such option: " +:+ arg)
  end.

Inductive result :=
| Parsed (args : list string)   (* parse_args returns (options, args) *)
| Stop (a : action).            (* parse_args leaves through sys.exit *)

(** [_process_args(largs, rargs, values)] with
    [allow_interspersed_args = True]; on return [args = largs + rargs]. *)
Fixpoint process_args (largs rargs : list string) : result :=
  match rargs with
  | [] => Parsed largs
  | arg :: rargs' =>
      if String.eqb arg "--" then Parsed (largs ++ rargs')
      else if Str.startswith arg "--" then Stop (process_long_opt arg)
      else if Str.startswith arg "-" && (1 <? String.length arg)%nat
           then Stop (process_short_opts arg)
      else process_args (largs ++ [arg]) rargs'
  end.

(** The words [_process_args] takes for positional arguments: neither
    [--], nor a long option, nor a short option. *)
Definition positional (arg : string) : bool :=
  negb (String.eqb arg "--") && negb (Str.startswith arg "--")
  && negb (Str.startswith arg "-" && (1 <? String.length arg)%nat).

(** [parser.parse_args()]: [rargs = sys.argv[1:]]. *)
Definition parse_args (argv : list string) : result :=
  process_args [] (drop 1 argv).

End OptParse.

(** ** The process state *)

(** A regular file: its bytes and whether this user may read and write it. *)
Record file := File {
  f_data : string;
  f_readable : bool;
  f_writable : bool;
}.

(** The part of the world that outlives a process: the files, by path, and
    the paths at which no file can be created (missing parent directory,
    directory without write permission).  A path is the canonical name of
    its file: there are no links and no second spelling of a path, so two
    paths name the same file exactly when they are equal. *)
Record filesystem := Filesystem {
  fs_files : gmap string file;
  fs_nocreate : gset string;
}.

Inductive mode := Rd | Wr.

(** A Python file object.  Text written to it stays in its buffer until the
    object is flushed, which [close] and the interpreter's shutdown do. *)
Record handle := Handle {
  h_path : string;
  h_mode : mode;
  h_buf : string;
  h_closed : bool;
}.

(** File operations, in the order the process performs them. *)
Inductive event :=
| EvOpen (path : string) (m : mode) (fd : nat)
| EvOpenFailed (path : string) (m : mode)
| EvRead (fd : nat)
| EvWrite (fd : nat) (text : string)
| EvClose (fd : nat).

Record proc := Proc {
  p_fs : filesystem;
  p_handles : list handle;      (* file objects, by creation order *)
  p_stdout : string;
  p_trace : list event;
}.

(** Exceptions that reach the top level of the script. *)
Inductive exn :=
| IndexError                          (* sys.argv[i] out of range *)
| FileNotFoundError (path : string)
| PermissionError (path : string)
| ValueError (msg : string)           (* Biopython on malformed input *)
| SystemExit (code : Z).

Inductive res (A : Type) :=
| Ok (a : A)
| Raise (e : exn).
Arguments Ok {A} a.
Arguments Raise {A} e.

(** Computations that read and update the process state and may raise. *)
Definition M (A : Type) : Type := proc -> res A * proc.

#[global] Instance M_ret : MRet M := fun A a p => (Ok a, p).
#[global] Instance M_bind : MBind M := fun A B f c p =>
  match c p with
  | (Ok a, p') => f a p'
  | (Raise e, p') => (Raise e, p')
  end.

Definition raise {A} (e : exn) : M A := fun p => (Raise e, p).
Definition get : M proc := fun p => (Ok p, p).
Definition put (p : proc) : M unit := fun _ => (Ok tt, p).

Definition log (e : event) : M unit := fun p =>
  (Ok tt, Proc (p_fs p) (p_handles p) (p_stdout p) (p_trace p ++ [e])).

Definition set_files (fm : gmap string file) : M unit := fun p =>
  (Ok tt, Proc (Filesystem fm (fs_nocreate (p_fs p)))
               (p_handles p) (p_stdout p) (p_trace p)).

Definition set_handles (hs : list handle) : M unit := fun p =>
  (Ok tt, Proc (p_fs p) hs (p_stdout p) (p_trace p)).

(** [print(s)]: [s] and a newline on standard output. *)
Definition print (s : string) : M unit := fun p =>
  (Ok tt, Proc (p_fs p) (p_handles p) (p_stdout p +:+ s +:+ Str.NL) (p_trace p)).

(** [sys.argv[i]] *)
Definition argv_item (argv : list string) (i : nat) : M string :=
  match argv !! i with
  | Some s => mret s
  | None => raise IndexError
  end.

(** [open(path)]: nothing is read yet. *)
Definition open_r (path : string) : M nat :=
  p ← get;
  match fs_files (p_fs p) !! path with
  | None => log (EvOpenFailed path Rd);; raise (FileNotFoundError path)
  | Some f =>
      if f_readable f then
        let fd := length (p_handles p) in
        set_handles (p_handles p ++ [Handle path Rd "" false]);;
        log (EvOpen path Rd fd);;
        mret fd
      else log (EvOpenFailed path Rd);; raise (PermissionError path)
  end.

(** [open(path, "w")]: the file is created, or truncated at once. *)
Definition open_w (path : string) : M nat :=
  p ← get;
  let fd := length (p_handles p) in
  match fs_files (p_fs p) !! path with
  | None =>
      if bool_decide (path ∈ fs_nocreate (p_fs p))
      then log (EvOpenFailed path Wr);; raise (FileNotFoundError path)
      else
        set_files (<[path := File "" true true]> (fs_files (p_fs p)));;
        set_handles (p_handles p ++ [Handle path Wr "" false]);;
        log (EvOpen path Wr fd);;
        mret fd
  | Some f =>
      if f_writable f then
        set_files (<[path := File "" (f_readable f) true]> (fs_files (p_fs p)));;
        set_handles (p_handles p ++ [Handle path Wr "" false]);;
        log (EvOpen path Wr fd);;
        mret fd
      else log (EvOpenFailed path Wr);; raise (PermissionError path)
  end.

(** The file object behind a descriptor: using one that does not exist or is
    closed is a [ValueError] ("I/O operation on closed file"). *)
Definition live_handle (fd : nat) : M handle :=
  p ← get;
  match p_handles p !! fd with
  | Some h => if h_closed h then raise (ValueError "I/O operation on closed file")
              else mret h
  | None => raise (ValueError "I/O operation on closed file")
  end.

(** [handle.write(text)]: the text goes to the buffer. *)
Definition write (fd : nat) (text : string) : M unit :=
  h ← live_handle fd;
  match h_mode h with
  | Rd => raise (ValueError "not writable")
  | Wr =>
      p ← get;
      set_handles (<[fd := Handle (h_path h) Wr (h_buf h +:+ text) false]> (p_handles p));;
      log (EvWrite fd text)
  end.

(** Reading a handle from its start to the end of the file, as the
    parser's generator does once it runs: the bytes on disk at that time. *)
Definition read_all (fd : nat) : M string :=
  h ← live_handle fd;
  match h_mode h with
  | Wr => raise (ValueError "not readable")
  | Rd =>
      p ← get;
      log (EvRead fd);;
      mret (default "" (f_data <$> fs_files (p_fs p) !! h_path h))
  end.

(** Flushing appends the buffer to the file. *)
Definition flushed (h : handle) (fm : gmap string file) : gmap string file :=
  match h_mode h with
  | Rd => fm
  | Wr => alter (fun f => File (f_data f +:+ h_buf h) (f_readable f) (f_writable f))
                (h_path h) fm
  end.

(** [handle.close()]: flush, then mark closed; closing twice is allowed. *)
Definition close (fd : nat) : M unit :=
  p ← get;
  match p_handles p !! fd with
  | None => mret tt
  | Some h =>
      if h_closed h then mret tt
      else
        set_files (flushed h (fs_files (p_fs p)));;
        set_handles (<[fd := Handle (h_path h) (h_mode h) "" true]> (p_handles p));;
        log (EvClose fd)
  end.

(** ** The external libraries *)

(** What iterating [SeqIO.parse(handle, "genbank")] produces: the records of
    the file in file order, ended by exhaustion or by the parser's failure
    on the first region it cannot parse. *)
Inductive stream (R : Type) :=
| Done
| Yield (r : R) (rest : stream R)
| Malformed (msg : string).
Arguments Done {R}.
Arguments Yield {R} r rest.
Arguments Malformed {R} msg.

(** One line of GFF3 as BCBio's writer emits it for a record: a directive
    ([##sequence-region ...]), or a feature row, given by the eight columns
    that follow the sequence identifier, already joined by tabs. *)
Inductive gff_row :=
| Pragma (body : string)
| Feature (columns : string).

Class Library := {
  (** Biopython's [SeqRecord] and its [id] *)
  record : Type;
  rec_id : record -> string;
  (** the lines BCBio's [GFF3Writer] writes for a record (annotation row,
      feature rows and their sub-features), in order *)
  rec_rows : record -> list gff_row;
  (** [SeqIO.parse(_, "genbank")] on the text of a file *)
  genbank_parse : string -> stream record;
  (** optparse's [format_help()], which depends on [sys.argv[0]] and on the
      width of the terminal *)
  help_text : string -> string;
}.

Fixpoint stream_records {R} (s : stream R) : list R :=
  match s with
  | Done | Malformed _ => []
  | Yield r s' => r :: stream_records s'
  end.

Fixpoint stream_error {R} (s : stream R) : option string :=
  match s with
  | Done => None
  | Yield _ s' => stream_error s'
  | Malformed msg => Some msg
  end.

(** ** The GFF text format (section 6 of the specification: tab-delimited
    rows whose first column is the sequence identifier) *)

Module GFF.

(** [_write_header] *)
Definition header : string := "##gff-version 3" +:+ Str.NL.

(** ["\t".join(parts) + "\n"] with [parts[0] = rec_id] *)
Definition render (id : string) (row : gff_row) : string :=
  match row with
  | Pragma body => "##" +:+ body +:+ Str.NL
  | Feature columns => id +:+ Str.TAB +:+ columns +:+ Str.NL
  end.

(** The sequence identifier of a line of GFF text: its first column, when
    the line is a feature row (comments and directives start with [#]). *)
Definition line_seqid (l : string) : option string :=
  match l with
  | EmptyString => None
  | String c _ =>
      if Ascii.eqb c Str.hash then None
      else fst <$> Str.split1 Str.tab l
  end.

(** The sequence identifiers of a GFF text, one per feature row, top to
    bottom. *)
Definition seqids (text : string) : list string :=
  omap line_seqid (Str.lines text).

Definition is_feature (row : gff_row) : bool :=
  match row with Feature _ => true | Pragma _ => false end.

(** Texts that fit in one column or one line of a GFF file. *)
Definition one_line (s : string) : bool := negb (Str.mem Str.nl s).

Definition seqid_ok (id : string) : bool :=
  match id with
  | EmptyString => false
  | String c _ =>
      negb (Ascii.eqb c Str.hash) && negb (Str.mem Str.tab id) && one_line id
  end.

Definition row_ok (row : gff_row) : bool :=
  match row with
  | Pragma body => one_line body
  | Feature columns => one_line columns
  end.

End GFF.

Section Script.

Context {L : Library}.

(** A record can be written as GFF: its identifier is a valid first column
    and each of its rows is a single line. *)
Definition rec_ok (r : record) : bool :=
  GFF.seqid_ok (rec_id r) && forallb GFF.row_ok (rec_rows r).

(** The record gives rise to at least one feature row. *)
Definition rec_has_feature (r : record) : bool :=
  existsb GFF.is_feature (rec_rows r).

(** The text of a record in the output. *)
Definition rec_text (r : record) : string :=
  foldr (fun row acc => GFF.render (rec_id r) row +:+ acc) "" (rec_rows r).

Definition recs_text (rs : list record) : string :=
  foldr (fun r acc => rec_text r +:+ acc) "" rs.

(** *** [GFF.write] *)

Fixpoint write_rows (fd : nat) (id : string) (rows : list gff_row) : M unit :=
  match rows with
  | [] => mret tt
  | row :: rows' => write fd (GFF.render id row);; write_rows fd id rows'
  end.

(** [for rec in recs: ...]: the generator is advanced, which parses the
    next record or raises, and the record is written before the next one
    is asked for. *)
Fixpoint write_recs (fd : nat) (s : stream record) : M unit :=
  match s with
  | Done => mret tt
  | Yield r s' => write_rows fd (rec_id r) (rec_rows r);; write_recs fd s'
  | Malformed msg => raise (ValueError msg)
  end.

(** The generator object [SeqIO.parse(in_handle, "genbank")]: creating it
    reads nothing. *)
Inductive generator := SeqIO_parse (in_handle : nat).

(** Running the generator's body: it reads its handle. *)
Definition iterate (g : generator) : M (stream record) :=
  let 'SeqIO_parse fd := g in
  text ← read_all fd;
  mret (genbank_parse text).

(** [GFF.write(recs, out_handle)]: the header first, then the records. *)
Definition GFF_write (recs : generator) (out_handle : nat) : M unit :=
  write out_handle GFF.header;;
  s ← iterate recs;
  write_recs out_handle s.

(** What [GFF.write] achieves on a stream: how it ends, and the write
    calls it makes on the way. *)
Definition stream_outcome (s : stream record) : res unit :=
  match stream_error s with
  | None => Ok tt
  | Some msg => Raise (ValueError msg)
  end.

Definition row_events (fd : nat) (id : string) (rows : list gff_row) : list event :=
  map (fun row => EvWrite fd (GFF.render id row)) rows.

Fixpoint stream_events (fd : nat) (s : stream record) : list event :=
  match s with
  | Done | Malformed _ => []
  | Yield r s' => row_events fd (rec_id r) (rec_rows r) ++ stream_events fd s'
  end.

(** *** The script *)

Definition version : string := "0.1".

(** [(options, args) = parser.parse_args()] *)
Definition parse_args (argv : list string) : M (list string) :=
  match OptParse.parse_args argv with
  | OptParse.Parsed args => mret args
  | OptParse.Stop OptParse.Help =>
      p ← get;
      put (Proc (p_fs p) (p_handles p)
                (p_stdout p +:+ help_text (default "" (argv !! 0%nat)))
                (p_trace p));;
      raise (SystemExit 0)
  | OptParse.Stop OptParse.Version => print version;; raise (SystemExit 0)
  | OptParse.Stop (OptParse.Usage_error _) => raise (SystemExit 2)
  end.

Definition main (argv : list string) : M unit :=
  _ ← parse_args argv;
  in_file ← argv_item argv 1;
  out_file ← argv_item argv 2;
  in_handle ← open_r in_file;
  out_handle ← open_w out_file;
  GFF_write (SeqIO_parse in_handle) out_handle;;
  close in_handle;;
  close out_handle.

(** *** A run of the program *)

(** Interpreter shutdown: the file objects still open are flushed and
    closed. *)
Fixpoint close_all (fds : list nat) : M unit :=
  match fds with
  | [] => mret tt
  | fd :: fds' => close fd;; close_all fds'
  end.

Definition shutdown (p : proc) : proc :=
  (close_all (seq 0 (length (p_handles p))) p).2.

(** The exit status of the process. *)
Definition exit_status (r : res unit) : Z :=
  match r with
  | Ok _ => 0
  | Raise (SystemExit code) => code
  | Raise _ => 1
  end.

Record run_result := Run {
  outcome : res unit;   (* how the script ended *)
  at_exit : proc;       (* the process when the script ended *)
  final : proc;         (* the process after interpreter shutdown *)
}.

Definition start (fs : filesystem) : proc := Proc fs [] "" [].

Definition run (argv : list string) (fs : filesystem) : run_result :=
  let '(r, p) := main argv (start fs) in
  Run r p (shutdown p).

Definition status (rr : run_result) : Z := exit_status (outcome rr).

(** The file system the run leaves behind. *)
Definition disk (rr : run_result) : filesystem := p_fs (final rr).

(** The bytes at a path. *)
Definition contents (fs : filesystem) (path : string) : option string :=
  f_data <$> fs_files fs !! path.

Definition all_closed (p : proc) : Prop :=
  Forall (fun h => h_closed h = true) (p_handles p).

(** The failure kinds of the specification's error taxonomy. *)
Inductive kind := ArgumentError | IOError | ParseError.

Definition kind_of (e : exn) : option kind :=
  match e with
  | IndexError => Some ArgumentError
  | SystemExit code => if decide (code = 2) then Some ArgumentError else None
  | FileNotFoundError _ | PermissionError _ => Some IOError
  | ValueError _ => Some ParseError
  end.

(** *** The conversion, as a function of the file system *)

(** [open(path)] would succeed. *)
Definition readable (fs : filesystem) (path : string) : bool :=
  match fs_files fs !! path with
  | Some f => f_readable f
  | None => false
  end.

(** [open(path, "w")] would succeed. *)
Definition writable (fs : filesystem) (path : string) : bool :=
  match fs_files fs !! path with
  | Some f => f_writable f
  | None => negb (bool_decide (path ∈ fs_nocreate fs))
  end.

(** The output file with the given bytes: a file that existed keeps its
    read permission, a new one is readable and writable. *)
Definition output_file (fs : filesystem) (out data : string) : file :=
  File data (from_option f_readable true (fs_files fs !! out)) true.

Definition with_output (fs : filesystem) (out data : string) : filesystem :=
  Filesystem (<[out := output_file fs out data]> (fs_files fs)) (fs_nocreate fs).

(** The bytes the parser gets to read: those of the input file once the
    output file has been opened. *)
Definition seen (fs : filesystem) (inp out : string) : string :=
  default "" (contents (with_output fs out "") inp).

Definition parsed (fs : filesystem) (inp out : string) : stream record :=
  genbank_parse (seen fs inp out).

(** The GFF text of a stream: the header and the records before the end
    or the failure. *)
Definition gff_text (s : stream record) : string :=
  GFF.header +:+ recs_text (stream_records s).

(** The sequence identifiers the records stand for in a GFF text: each
    record's identifier, once per feature row of the record. *)
Definition rec_seqids (r : record) : list string :=
  replicate (length (filter (fun row => Is_true (GFF.is_feature row)) (rec_rows r)))
            (rec_id r).

Definition recs_seqids (rs : list record) : list string :=
  concat (map rec_seqids rs).

(** *** Observations on a run *)

(** No attempt to open a file for writing comes before a successful open
    for reading. *)
Fixpoint input_first (tr : list event) : bool :=
  match tr with
  | [] => true
  | EvOpen _ Rd _ :: _ => true
  | EvOpen _ Wr _ :: _ | EvOpenFailed _ Wr :: _ => false
  | _ :: tr' => input_first tr'
  end.

(** How many different sequence identifiers the feature rows of a GFF
    text carry. *)
Definition distinct_seqids (text : string) : nat :=
  length (remove_dups (GFF.seqids text)).

End Script.

(** ** The paths of a run *)

Section PathsDef.

Context {L : Library}.

Implicit Types (argv args : list string) (fs : filesystem) (inp out : string).

(** Every run takes one of five paths. *)
Inductive path argv fs : Prop :=
| Stopped (a : OptParse.action) (so : string) (code : Z) :
    OptParse.parse_args argv = OptParse.Stop a ->
    run argv fs = Run (Raise (SystemExit code)) (Proc fs [] so []) (Proc fs [] so []) ->
    path argv fs
| Short args :
    OptParse.parse_args argv = OptParse.Parsed args ->
    (length argv < 3)%nat ->
    run argv fs = Run (Raise IndexError) (start fs) (start fs) ->
    path argv fs
| Unreadable args inp out (e : exn) :
    OptParse.parse_args argv = OptParse.Parsed args ->
    argv !! 1%nat = Some inp -> argv !! 2%nat = Some out ->
    readable fs inp = false ->
    kind_of e = Some IOError ->
    run argv fs = Run (Raise e) (Proc fs [] "" [EvOpenFailed inp Rd])
                      (Proc fs [] "" [EvOpenFailed inp Rd]) ->
    path argv fs
| Unwritable args inp out (e : exn) :
    OptParse.parse_args argv = OptParse.Parsed args ->
    argv !! 1%nat = Some inp -> argv !! 2%nat = Some out ->
    readable fs inp = true -> writable fs out = false ->
    kind_of e = Some IOError ->
    run argv fs
    = Run (Raise e)
          (Proc fs [Handle inp Rd "" false] ""
                [EvOpen inp Rd 0; EvOpenFailed out Wr])
          (Proc fs [Handle inp Rd "" true] ""
                [EvOpen inp Rd 0; EvOpenFailed out Wr; EvClose 0]) ->
    path argv fs
| Converted args inp out (s : stream record) (trace : list event) (closed : proc) :
    OptParse.parse_args argv = OptParse.Parsed args ->
    argv !! 1%nat = Some inp -> argv !! 2%nat = Some out ->
    readable fs inp = true -> writable fs out = true ->
    s = parsed fs inp out ->
    trace = [EvOpen inp Rd 0; EvOpen out Wr 1; EvWrite 1 GFF.header; EvRead 0]
            ++ stream_events 1 s ->
    closed = Proc (with_output fs out (gff_text s))
                  [Handle inp Rd "" true; Handle out Wr "" true] ""
                  (trace ++ [EvClose 0; EvClose 1]) ->
    run argv fs
    = Run (stream_outcome s)
          (match stream_error s with
           | None => closed
           | Some _ =>
               Proc (with_output fs out "")
                    [Handle inp Rd "" false; Handle out Wr (gff_text s) false] ""
                    trace
           end)
          closed ->
    path argv fs.

End PathsDef.

(** ** A small library instance

    A line-oriented reader of the GenBank record frame ([LOCUS name ...] up
    to [//]) and a writer of one annotation row per record.  It stands for
    Biopython and BCBio when the script is run on concrete files. *)

Module Mini.

Record rec := Rec { locus : string }.

Fixpoint lstrip (s : string) : string :=
  match s with
  | String c s' => if Ascii.eqb c " "%char then lstrip s' else s
  | EmptyString => EmptyString
  end.

(** The name on a [LOCUS] line: the first word after the keyword. *)
Definition locus_name (l : string) : option string :=
  if Str.startswith l "LOCUS " then
    let rest := lstrip (String.substring 6 (String.length l - 6) l) in
    Some (default rest (fst <$> Str.split1 " "%char rest))
  else None.

(** Lines before a [LOCUS] line are skipped; a record runs to its [//]. *)
Fixpoint scan (cur : option string) (ls : list string) : stream rec :=
  match ls with
  | [] =>
      match cur with
      | None => Done
      | Some _ => Malformed "Premature end of file"
      end
  | l :: ls' =>
      match cur with
      | None => scan (locus_name l) ls'
      | Some n =>
          if String.eqb l "//" then Yield (Rec n) (scan None ls')
          else scan cur ls'
      end
  end.

Definition rows (r : rec) : list gff_row :=
  [Feature ("annotation" +:+ Str.TAB +:+ "remark" +:+ Str.TAB +:+ "1"
            +:+ Str.TAB +:+ "1" +:+ Str.TAB +:+ "." +:+ Str.TAB +:+ "."
            +:+ Str.TAB +:+ "." +:+ Str.TAB +:+ "locus=" +:+ locus r)].

#[export] Instance lib : Library := {|
  record := rec;
  rec_id := locus;
  rec_rows := rows;
  genbank_parse text := scan None (Str.lines text);
  help_text prog := "Usage: " +:+ prog +:+ " genbank_in_file gff_out_name" +:+ Str.NL;
|}.

(** Two records. *)
Definition two_records : string :=
  "LOCUS       SEQ1" +:+ Str.NL +:+ "//" +:+ Str.NL +:+
  "LOCUS       SEQ2" +:+ Str.NL +:+ "//" +:+ Str.NL.

(** A record, then one that is cut off. *)
Definition truncated : string :=
  "LOCUS       SEQ1" +:+ Str.NL +:+ "//" +:+ Str.NL +:+
  "LOCUS       SEQ2" +:+ Str.NL +:+ "FEATURES" +:+ Str.NL.

(** A GenBank flat-file entry of ten bases, with its header, one source
    feature and the end-of-entry line. *)
Definition locus_line (name : string) : string :=
  "LOCUS       " +:+ name +:+ "                      10 bp    DNA     linear   UNK 01-JAN-1980"
  +:+ Str.NL.

Definition entry_head (name : string) : string :=
  locus_line name +:+
  "DEFINITION  example." +:+ Str.NL +:+
  "ACCESSION   " +:+ name +:+ Str.NL +:+
  "VERSION     " +:+ name +:+ Str.NL +:+
  "KEYWORDS    ." +:+ Str.NL +:+
  "SOURCE      ." +:+ Str.NL +:+
  "  ORGANISM  ." +:+ Str.NL +:+
  "            ." +:+ Str.NL +:+
  "FEATURES             Location/Qualifiers" +:+ Str.NL +:+
  "     source          1..10" +:+ Str.NL.

Definition entry (name : string) : string :=
  entry_head name +:+
  "ORIGIN" +:+ Str.NL +:+
  "        1 acgtacgtac" +:+ Str.NL +:+
  "//" +:+ Str.NL.

(** Two entries under one accession. *)
Definition one_accession_twice : string := entry "SEQ1" +:+ entry "SEQ1".

(** An entry, then one whose text stops inside its feature table. *)
Definition cut_off : string := entry "SEQ1" +:+ entry_head "SEQ2".

Definition plain (data : string) : file := File data true true.

Definition fs_of (l : list (string * file)) : filesystem :=
  Filesystem (list_to_map l) ∅.

(** The usual command line. *)
Definition argv : list string := ["genbank2gff.py"; "in.gb"; "out.gff"].

(** A directory that holds the input file only. *)
Definition only_input (data : string) : filesystem :=
  fs_of [("in.gb", plain data)].

End Mini.

(** * Properties *)

(** ** Strings and GFF text *)

Lemma str_app_cons (c : ascii) (a b : string) : String c a +:+ b = String c (a +:+ b).
Proof. reflexivity. Qed.

Lemma str_app_nil_l (s : string) : "" +:+ s = s.
Proof. reflexivity. Qed.

Lemma str_app_nil_r (s : string) : s +:+ "" = s.
Proof. induction s as [|c s IH]; [done|]. by rewrite str_app_cons, IH. Qed.

Lemma str_app_assoc (a b c : string) : (a +:+ b) +:+ c = a +:+ (b +:+ c).
Proof. induction a as [|x a IH]; [done|]. by rewrite !str_app_cons, IH. Qed.

Lemma str_mem_app (c : ascii) (a b : string) :
  Str.mem c (a +:+ b) = Str.mem c a || Str.mem c b.
Proof.
  induction a as [|x a IH]; [done|].
  rewrite str_app_cons. cbn. by destruct (Ascii.eqb c x).
Qed.

(** A complete line at the front of a text is its first line. *)
Lemma lines_cons (l rest : string) :
  GFF.one_line l = true ->
  Str.lines (l +:+ Str.NL +:+ rest) = l :: Str.lines rest.
Proof.
  unfold GFF.one_line. induction l as [|c l IH]; intros Hl.
  - reflexivity.
  - cbn [Str.mem] in Hl. rewrite str_app_cons. cbn [Str.lines].
    rewrite (Ascii.eqb_sym c Str.nl).
    destruct (Ascii.eqb Str.nl c); [done|].
    by rewrite IH.
Qed.

Lemma split1_app (c : ascii) (a b : string) :
  Str.mem c a = false ->
  Str.split1 c (a +:+ String c b) = Some (a, b).
Proof.
  induction a as [|x a IH]; intros Ha.
  - rewrite str_app_nil_l. cbn [Str.split1]. by rewrite Ascii.eqb_refl.
  - cbn [Str.mem] in Ha. rewrite str_app_cons. cbn [Str.split1].
    destruct (Ascii.eqb c x); [done|]. by rewrite IH.
Qed.

Lemma line_seqid_feature (id columns : string) :
  GFF.seqid_ok id = true ->
  GFF.line_seqid (id +:+ Str.TAB +:+ columns) = Some id.
Proof.
  destruct id as [|c id]; [done|]. cbn [GFF.seqid_ok].
  intros [[Hc Ht%negb_true_iff]%andb_true_iff _]%andb_true_iff.
  apply negb_true_iff in Hc.
  rewrite str_app_cons. cbn [GFF.line_seqid]. rewrite Hc.
  rewrite <- str_app_cons. unfold Str.TAB. rewrite (str_app_cons Str.tab).
  rewrite str_app_nil_l. by rewrite split1_app.
Qed.

Lemma one_line_app (a b : string) :
  GFF.one_line (a +:+ b) = GFF.one_line a && GFF.one_line b.
Proof. unfold GFF.one_line. by rewrite str_mem_app, negb_orb. Qed.

Lemma seqid_ok_one_line (id : string) :
  GFF.seqid_ok id = true -> GFF.one_line id = true.
Proof.
  destruct id as [|c id]; [done|]. cbn [GFF.seqid_ok].
  by intros [_ ?]%andb_true_iff.
Qed.

(** The identifier column of a rendered row, read back from the text. *)
Lemma seqids_render (id : string) (row : gff_row) (rest : string) :
  GFF.seqid_ok id = true -> GFF.row_ok row = true ->
  GFF.seqids (GFF.render id row +:+ rest)
  = (if GFF.is_feature row then [id] else []) ++ GFF.seqids rest.
Proof.
  intros Hid Hrow. unfold GFF.seqids.
  destruct row as [body|columns]; cbn [GFF.render GFF.is_feature GFF.row_ok] in *.
  - rewrite !str_app_assoc. rewrite <- (str_app_assoc "##").
    rewrite lines_cons.
    + reflexivity.
    + by rewrite one_line_app, Hrow.
  - rewrite !str_app_assoc.
    rewrite <- (str_app_assoc Str.TAB), <- (str_app_assoc id).
    rewrite lines_cons.
    + cbn [omap list_omap]. by rewrite line_seqid_feature.
    + by rewrite !one_line_app, (seqid_ok_one_line _ Hid), Hrow.
Qed.

(** ** The file operations *)

Ltac monad_unfold :=
  unfold mbind, M_bind, mret, M_ret, raise, get, put, log, set_files,
    set_handles in *.

Section Operations.

Context {L : Library}.

Lemma bind_ok {A B} (c : M A) (k : A -> M B) (p p' : proc) (a : A) :
  c p = (Ok a, p') -> (c ≫= k) p = k a p'.
Proof. intros H. unfold mbind, M_bind. by rewrite H. Qed.

Lemma bind_raise {A B} (c : M A) (k : A -> M B) (p p' : proc) (e : exn) :
  c p = (Raise e, p') -> (c ≫= k) p = (Raise e, p').
Proof. intros H. unfold mbind, M_bind. by rewrite H. Qed.

Lemma write_ok (fd : nat) (text path buf : string) (p : proc) :
  p_handles p !! fd = Some (Handle path Wr buf false) ->
  write fd text p
  = (Ok tt, Proc (p_fs p)
                 (<[fd := Handle path Wr (buf +:+ text) false]> (p_handles p))
                 (p_stdout p) (p_trace p ++ [EvWrite fd text])).
Proof.
  intros H. unfold write, live_handle. monad_unfold. by rewrite H.
Qed.

Lemma write_rows_ok (fd : nat) (id : string) (rows : list gff_row) :
  forall (path buf : string) (p : proc),
  p_handles p !! fd = Some (Handle path Wr buf false) ->
  write_rows fd id rows p
  = (Ok tt, Proc (p_fs p)
                 (<[fd := Handle path Wr
                            (buf +:+ foldr (fun row acc => GFF.render id row +:+ acc) "" rows)
                            false]> (p_handles p))
                 (p_stdout p) (p_trace p ++ row_events fd id rows)).
Proof.
  induction rows as [|row rows IH]; intros path buf p H.
  - cbn. rewrite str_app_nil_r, app_nil_r, list_insert_id by done. by destruct p.
  - cbn [write_rows foldr row_events map].
    erewrite bind_ok by (by apply write_ok).
    erewrite IH.
    + cbn. rewrite list_insert_insert_eq, str_app_assoc, <- app_assoc. done.
    + cbn. apply list_lookup_insert_eq. by eapply lookup_lt_Some.
Qed.

Lemma write_recs_ok (fd : nat) (s : stream record) :
  forall (path buf : string) (p : proc),
  p_handles p !! fd = Some (Handle path Wr buf false) ->
  write_recs fd s p
  = (stream_outcome s,
     Proc (p_fs p)
          (<[fd := Handle path Wr (buf +:+ recs_text (stream_records s)) false]>
             (p_handles p))
          (p_stdout p) (p_trace p ++ stream_events fd s)).
Proof.
  induction s as [|r s IH|msg]; intros path buf p H.
  - cbn. rewrite str_app_nil_r, app_nil_r, list_insert_id by done. by destruct p.
  - cbn [write_recs stream_records stream_events recs_text foldr].
    erewrite bind_ok by (by apply write_rows_ok).
    erewrite IH.
    + cbn. rewrite list_insert_insert_eq, str_app_assoc, <- app_assoc.
      unfold stream_outcome. done.
    + cbn. apply list_lookup_insert_eq. by eapply lookup_lt_Some.
  - cbn. rewrite str_app_nil_r, app_nil_r, list_insert_id by done. by destruct p.
Qed.

Lemma open_r_ok (path : string) (f : file) (p : proc) :
  fs_files (p_fs p) !! path = Some f -> f_readable f = true ->
  open_r path p
  = (Ok (length (p_handles p)),
     Proc (p_fs p) (p_handles p ++ [Handle path Rd "" false]) (p_stdout p)
          (p_trace p ++ [EvOpen path Rd (length (p_handles p))])).
Proof. intros H Hr. unfold open_r. monad_unfold. by rewrite H, Hr. Qed.

Lemma open_r_fail (path : string) (p : proc) :
  readable (p_fs p) path = false ->
  exists e, kind_of e = Some IOError /\
    open_r path p
    = (Raise e, Proc (p_fs p) (p_handles p) (p_stdout p)
                     (p_trace p ++ [EvOpenFailed path Rd])).
Proof.
  unfold readable, open_r. monad_unfold.
  destruct (fs_files (p_fs p) !! path) as [f|]; [intros ->|intros _];
    (eexists; split; [|reflexivity]; reflexivity).
Qed.

Lemma open_w_ok (path : string) (p : proc) :
  writable (p_fs p) path = true ->
  open_w path p
  = (Ok (length (p_handles p)),
     Proc (with_output (p_fs p) path "")
          (p_handles p ++ [Handle path Wr "" false]) (p_stdout p)
          (p_trace p ++ [EvOpen path Wr (length (p_handles p))])).
Proof.
  unfold writable, open_w, with_output, output_file. monad_unfold.
  destruct (fs_files (p_fs p) !! path) as [f|]; cbn.
  - by intros ->.
  - intros H%negb_true_iff. by rewrite H.
Qed.

Lemma open_w_fail (path : string) (p : proc) :
  writable (p_fs p) path = false ->
  exists e, kind_of e = Some IOError /\
    open_w path p
    = (Raise e, Proc (p_fs p) (p_handles p) (p_stdout p)
                     (p_trace p ++ [EvOpenFailed path Wr])).
Proof.
  unfold writable, open_w. monad_unfold.
  destruct (fs_files (p_fs p) !! path) as [f|].
  - intros ->. eexists; split; [|reflexivity]; reflexivity.
  - intros H%negb_false_iff. rewrite H.
    eexists; split; [|reflexivity]; reflexivity.
Qed.

Lemma read_all_ok (fd : nat) (path buf : string) (p : proc) :
  p_handles p !! fd = Some (Handle path Rd buf false) ->
  read_all fd p
  = (Ok (default "" (contents (p_fs p) path)),
     Proc (p_fs p) (p_handles p) (p_stdout p) (p_trace p ++ [EvRead fd])).
Proof.
  intros H. unfold read_all, live_handle, contents. monad_unfold. by rewrite H.
Qed.

Lemma close_ok (fd : nat) (h : handle) (p : proc) :
  p_handles p !! fd = Some h -> h_closed h = false ->
  close fd p
  = (Ok tt,
     Proc (Filesystem (flushed h (fs_files (p_fs p))) (fs_nocreate (p_fs p)))
          (<[fd := Handle (h_path h) (h_mode h) "" true]> (p_handles p))
          (p_stdout p) (p_trace p ++ [EvClose fd])).
Proof. intros H Hc. unfold close. monad_unfold. by rewrite H, Hc. Qed.

Lemma with_output_twice (fs : filesystem) (out a b : string) :
  with_output (with_output fs out a) out b = with_output fs out b.
Proof.
  unfold with_output, output_file. cbn.
  rewrite lookup_insert_eq, insert_insert_eq. cbn.
  by destruct (fs_files fs !! out).
Qed.

(** [GFF.write] on the two handles of the script. *)
Lemma GFF_write_spec (inp out : string) (p : proc) :
  p_handles p = [Handle inp Rd "" false; Handle out Wr "" false] ->
  let s := genbank_parse (default "" (contents (p_fs p) inp)) in
  GFF_write (SeqIO_parse 0) 1 p
  = (stream_outcome s,
     Proc (p_fs p)
          [Handle inp Rd "" false; Handle out Wr (gff_text s) false]
          (p_stdout p)
          (p_trace p ++ [EvWrite 1 GFF.header; EvRead 0] ++ stream_events 1 s)).
Proof.
  intros Hh s. unfold GFF_write, iterate.
  erewrite bind_ok by (apply write_ok; by rewrite Hh).
  erewrite bind_ok.
  2:{ erewrite bind_ok by (eapply read_all_ok; cbn; by rewrite Hh).
      reflexivity. }
  erewrite write_recs_ok by (cbn; by rewrite Hh).
  cbn. rewrite Hh. cbn. fold s. unfold gff_text.
  by rewrite <- !app_assoc.
Qed.

(** Closing the two handles of the script, by the script itself or by the
    interpreter when it shuts down. *)
Lemma close_both (fs : filesystem) (inp out buf so : string) (tr : list event) :
  (close 0 ≫= fun _ => close 1)
    (Proc (with_output fs out "")
          [Handle inp Rd "" false; Handle out Wr buf false] so tr)
  = (Ok tt,
     Proc (with_output fs out buf)
          [Handle inp Rd "" true; Handle out Wr "" true] so
          (tr ++ [EvClose 0; EvClose 1])).
Proof.
  erewrite bind_ok by (by eapply close_ok).
  erewrite close_ok by (cbn; done).
  cbn [p_fs p_handles p_stdout p_trace h_path h_mode h_buf fs_files fs_nocreate
       flushed with_output].
  rewrite alter_insert_eq, <- app_assoc. cbn.
  by rewrite str_app_nil_l.
Qed.

Lemma shutdown_open (fs : filesystem) (inp out buf so : string) (tr : list event) :
  shutdown (Proc (with_output fs out "")
                 [Handle inp Rd "" false; Handle out Wr buf false] so tr)
  = Proc (with_output fs out buf)
         [Handle inp Rd "" true; Handle out Wr "" true] so
         (tr ++ [EvClose 0; EvClose 1]).
Proof.
  unfold shutdown. cbn [p_handles length seq close_all].
  pose proof (close_both fs inp out buf so tr) as H.
  unfold mbind, M_bind in *.
  destruct (close 0 _) as [[[]|e] p0]; [|done].
  destruct (close 1 p0) as [[[]|e] p1]; [|done].
  by injection H as ->.
Qed.

Lemma shutdown_closed (p : proc) :
  all_closed p -> shutdown p = p.
Proof.
  unfold shutdown, all_closed. intros Hc.
  assert (H : forall fds, close_all fds p = (Ok tt, p)); [|by rewrite H].
  induction fds as [|fd fds IH]; [done|].
  cbn [close_all]. erewrite bind_ok; [exact IH|].
  unfold close. monad_unfold.
  destruct (p_handles p !! fd) as [h|] eqn:E; [|done].
  by rewrite (proj1 (Forall_lookup _ _) Hc _ _ E).
Qed.

End Operations.

(** ** The runs of the script *)

Section Runs.

Context {L : Library}.

Implicit Types (argv args : list string) (fs : filesystem) (inp out : string).

Lemma run_conversion argv args fs inp out :
  OptParse.parse_args argv = OptParse.Parsed args ->
  argv !! 1%nat = Some inp -> argv !! 2%nat = Some out ->
  readable fs inp = true -> writable fs out = true ->
  let s := parsed fs inp out in
  let trace := [EvOpen inp Rd 0; EvOpen out Wr 1; EvWrite 1 GFF.header; EvRead 0]
               ++ stream_events 1 s in
  let closed := Proc (with_output fs out (gff_text s))
                     [Handle inp Rd "" true; Handle out Wr "" true] ""
                     (trace ++ [EvClose 0; EvClose 1]) in
  run argv fs
  = Run (stream_outcome s)
        (match stream_error s with
         | None => closed
         | Some _ =>
             Proc (with_output fs out "")
                  [Handle inp Rd "" false; Handle out Wr (gff_text s) false] ""
                  trace
         end)
        closed.
Proof.
  intros Hargs Hin Hout Hr Hw s trace closed.
  unfold run, main, parse_args. rewrite Hargs.
  unfold argv_item. rewrite Hin, Hout.
  unfold readable in Hr.
  destruct (fs_files fs !! inp) as [fi|] eqn:Ei; [|done].
  do 3 (erewrite bind_ok by reflexivity).
  erewrite bind_ok by (by eapply open_r_ok).
  erewrite bind_ok by (by eapply open_w_ok).
  cbn [start p_fs p_handles p_stdout p_trace length app].
  assert (Hs : genbank_parse (default "" (contents (with_output fs out "") inp)) = s)
    by reflexivity.
  destruct (stream_error s) as [msg|] eqn:Es.
  - erewrite bind_raise.
    2:{ erewrite GFF_write_spec by reflexivity. cbn [p_fs]. rewrite Hs.
        unfold stream_outcome. rewrite Es. reflexivity. }
    cbn [app]. rewrite shutdown_open. unfold stream_outcome. rewrite Es.
    reflexivity.
  - erewrite bind_ok.
    2:{ erewrite GFF_write_spec by reflexivity. cbn [p_fs]. rewrite Hs.
        unfold stream_outcome. rewrite Es. reflexivity. }
    cbn [p_fs p_handles p_stdout p_trace app].
    rewrite close_both. rewrite shutdown_closed.
    + unfold stream_outcome. rewrite Es. reflexivity.
    + unfold all_closed. cbn. by repeat constructor.
Qed.

(** The option parser ends the program: nothing else happens. *)
Lemma run_stopped argv fs (a : OptParse.action) :
  OptParse.parse_args argv = OptParse.Stop a ->
  exists so code,
    run argv fs = Run (Raise (SystemExit code)) (Proc fs [] so []) (Proc fs [] so [])
    /\ match a with
       | OptParse.Version => so = version +:+ Str.NL /\ code = 0
       | OptParse.Help => code = 0
       | OptParse.Usage_error _ => so = "" /\ code = 2
       end.
Proof.
  intros H. unfold run, main, parse_args. rewrite H.
  destruct a; do 2 eexists; (split; [reflexivity|]); by rewrite ?str_app_nil_l.
Qed.

(** A command line that is too short: [sys.argv[1]] or [sys.argv[2]]
    raises before any file is touched. *)
Lemma run_short argv args fs :
  OptParse.parse_args argv = OptParse.Parsed args ->
  (length argv < 3)%nat ->
  run argv fs = Run (Raise IndexError) (start fs) (start fs).
Proof.
  intros H Hlen. unfold run, main, parse_args, argv_item. rewrite H.
  destruct argv as [|a0 [|a1 [|a2 argv]]]; cbn in Hlen; try lia; reflexivity.
Qed.

(** The input cannot be opened. *)
Lemma run_unreadable argv args fs inp out :
  OptParse.parse_args argv = OptParse.Parsed args ->
  argv !! 1%nat = Some inp -> argv !! 2%nat = Some out ->
  readable fs inp = false ->
  exists e, kind_of e = Some IOError /\
    let p := Proc fs [] "" [EvOpenFailed inp Rd] in
    run argv fs = Run (Raise e) p p.
Proof.
  intros Hargs Hin Hout Hr.
  destruct (open_r_fail inp (start fs) Hr) as (e & He & Hopen).
  exists e. split; [done|].
  unfold run, main, parse_args, argv_item. rewrite Hargs, Hin, Hout.
  do 3 (erewrite bind_ok by reflexivity).
  erewrite bind_raise by exact Hopen. reflexivity.
Qed.

(** The input opens and the output does not: the input handle stays open
    until the interpreter shuts down. *)
Lemma run_unwritable argv args fs inp out :
  OptParse.parse_args argv = OptParse.Parsed args ->
  argv !! 1%nat = Some inp -> argv !! 2%nat = Some out ->
  readable fs inp = true -> writable fs out = false ->
  exists e, kind_of e = Some IOError /\
    run argv fs
    = Run (Raise e)
          (Proc fs [Handle inp Rd "" false] ""
                [EvOpen inp Rd 0; EvOpenFailed out Wr])
          (Proc fs [Handle inp Rd "" true] ""
                [EvOpen inp Rd 0; EvOpenFailed out Wr; EvClose 0]).
Proof.
  intros Hargs Hin Hout Hr Hw.
  unfold readable in Hr.
  destruct (fs_files fs !! inp) as [fi|] eqn:Ei; [|done].
  edestruct (open_w_fail out) as (e & He & Hopen); [|exists e; split; [done|]].
  2:{ unfold run, main, parse_args, argv_item. rewrite Hargs, Hin, Hout.
      do 3 (erewrite bind_ok by reflexivity).
      erewrite bind_ok by (by eapply open_r_ok).
      erewrite bind_raise by exact Hopen.
      cbn. unfold shutdown. cbn. by destruct fs. }
  done.
Qed.

End Runs.

(** ** The paths of a run *)

Section Paths.

Context {L : Library}.

Implicit Types (argv args : list string) (fs : filesystem) (inp out : string).

Lemma run_path argv fs : path argv fs.
Proof.
  destruct (OptParse.parse_args argv) as [args|a] eqn:Hargs.
  - destruct (argv !! 2%nat) as [out|] eqn:Hout.
    + destruct (argv !! 1%nat) as [inp|] eqn:Hin.
      2:{ apply lookup_ge_None in Hin. apply lookup_lt_Some in Hout. lia. }
      destruct (readable fs inp) eqn:Hr.
      * destruct (writable fs out) eqn:Hw.
        -- eapply Converted; eauto. by apply run_conversion with args.
        -- destruct (run_unwritable argv args fs inp out) as (e & He & Hrun); auto.
           eapply Unwritable; eauto.
      * destruct (run_unreadable argv args fs inp out) as (e & He & Hrun); auto.
        eapply Unreadable; eauto.
    + apply lookup_ge_None in Hout.
      apply (Short argv fs args); [done|lia|].
      apply run_short with args; [done|lia].
  - destruct (run_stopped argv fs a Hargs) as (so & code & Hrun & _).
    eapply Stopped; eauto.
Qed.

End Paths.

(** * The claims *)

Section Claims.

Context {L : Library}.

Implicit Types (argv args : list string) (fs : filesystem) (inp out : string).


Lemma stream_outcome_raise (s : stream record) (msg : string) :
  stream_error s = Some msg -> stream_outcome s = Raise (ValueError msg).
Proof. unfold stream_outcome. by intros ->. Qed.



(** C2.  When the option parser lets the script run and the input path
    cannot be opened for reading, the script fails with an exception of the
    IOError kind, the exit status is 1, and the file system is left as it
    was: no file appears at the output path. *)
Theorem missing_input_fails argv args fs inp out :
  OptParse.parse_args argv = OptParse.Parsed args ->
  argv !! 1%nat = Some inp -> argv !! 2%nat = Some out ->
  readable fs inp = false ->
  (exists e, outcome (run argv fs) = Raise e /\ kind_of e = Some IOError) /\
  status (run argv fs) = 1 /\
  disk (run argv fs) = fs /\
  fs_files (disk (run argv fs)) !! out = fs_files fs !! out.
Proof.
  intros Hargs Hin Hout Hr.
  destruct (run_unreadable argv args fs inp out) as (e & He & Hrun); auto.
  cbv zeta in Hrun. unfold status, disk. rewrite Hrun. cbn.
  repeat split; eauto.
  destruct e; try done. cbn in He. by case_decide.
Qed.

(** C9.  No run tries to open a file for writing before it has opened one
    for reading; when the input path cannot be opened, the only file
    operation of the run, if any, is that failed attempt, and the file
    system is left as it was: a file at the output path keeps its bytes. *)
Theorem output_untouched_when_input_fails argv fs :
  input_first (p_trace (final (run argv fs))) = true /\
  forall inp out,
    argv !! 1%nat = Some inp -> readable fs inp = false ->
    Forall (fun e => e = EvOpenFailed inp Rd) (p_trace (final (run argv fs))) /\
    disk (run argv fs) = fs /\
    contents (disk (run argv fs)) out = contents fs out.
Proof.
  destruct (run_path argv fs)
    as [a so code _ Hrun|args _ _ Hrun|args inp' out' e _ Hin _ Hr _ Hrun
       |args inp' out' e _ Hin _ Hr _ _ Hrun
       |args inp' out' s trace closed _ Hin _ Hr _ _ Htrace Hclosed Hrun];
    unfold disk; rewrite Hrun; cbn [final p_trace p_fs].
  - split; [done|]. intros. by split; [constructor|].
  - split; [done|]. intros. by split; [constructor|].
  - split; [done|]. intros inp out Hin' _.
    assert (inp = inp') as -> by congruence.
    by split; [repeat constructor|].
  - split; [done|]. intros inp out Hin' Hr'. congruence.
  - subst closed trace. split; [done|]. intros inp out Hin' Hr'. congruence.
Qed.

(** C7, as amended.  A command line with fewer than two words after the
    program name opens no file and leaves the file system as it was.  When
    the option parser returns, the script fails on [sys.argv] with an
    IndexError, an argument error, and exit status 1; otherwise the option
    parser has ended the program, with status 2 for a usage error and
    status 0 for the help and version options. *)
Theorem short_command_line_opens_nothing argv fs :
  (length argv < 3)%nat ->
  p_trace (final (run argv fs)) = [] /\
  p_handles (final (run argv fs)) = [] /\
  disk (run argv fs) = fs /\
  match OptParse.parse_args argv with
  | OptParse.Parsed _ =>
      outcome (run argv fs) = Raise IndexError /\
      kind_of IndexError = Some ArgumentError /\
      status (run argv fs) = 1
  | OptParse.Stop (OptParse.Usage_error _) =>
      outcome (run argv fs) = Raise (SystemExit 2) /\
      kind_of (SystemExit 2) = Some ArgumentError
  | OptParse.Stop _ => outcome (run argv fs) = Raise (SystemExit 0)
  end.
Proof.
  intros Hlen. unfold status, disk.
  destruct (OptParse.parse_args argv) as [args|a] eqn:Hargs.
  - rewrite (run_short argv args fs Hargs Hlen). by cbn.
  - destruct (run_stopped argv fs a Hargs) as (so & code & -> & Ha).
    cbn. repeat split; try done.
    destruct a as [| |msg]; [by subst|by destruct Ha as [_ ->]|].
    by destruct Ha as [_ ->].
Qed.

Lemma process_args_positional (pre : list string) :
  forall largs rest,
  forallb OptParse.positional pre = true ->
  OptParse.process_args largs (pre ++ rest)
  = OptParse.process_args (largs ++ pre) rest.
Proof.
  induction pre as [|w pre IH]; intros largs rest Hpre.
  - by rewrite app_nil_r.
  - cbn [forallb] in Hpre. apply andb_true_iff in Hpre as [Hw Hpre].
    unfold OptParse.positional in Hw.
    apply andb_true_iff in Hw as [[H1 H2]%andb_true_iff H3].
    apply negb_true_iff in H1, H2, H3.
    cbn [app OptParse.process_args]. rewrite H1, H2, H3.
    rewrite IH by done. by rewrite <- app_assoc.
Qed.

(** C8.  With the version flag as the first option on the command line,
    the script prints its version, [0.1], on standard output and exits with
    status 0; it performs no file operation and leaves the file system as
    it was. *)
Theorem version_flag_prints_and_exits (prog : string) (pre rest : list string) fs :
  forallb OptParse.positional pre = true ->
  let rr := run (prog :: pre ++ "--version" :: rest) fs in
  outcome rr = Raise (SystemExit 0) /\
  status rr = 0 /\
  p_stdout (final rr) = "0.1" +:+ Str.NL /\
  p_trace (final rr) = [] /\
  disk rr = fs.
Proof.
  intros Hpre rr.
  assert (Hargs : OptParse.parse_args (prog :: pre ++ "--version" :: rest)
                  = OptParse.Stop OptParse.Version).
  { unfold OptParse.parse_args.
    change (drop 1 (prog :: pre ++ "--version" :: rest))
      with (pre ++ "--version" :: rest).
    by rewrite process_args_positional. }
  destruct (run_stopped _ fs _ Hargs) as (so & code & Hrun & -> & ->).
  unfold rr, status, disk. rewrite Hrun. by cbn.
Qed.

Lemma contents_with_output fs out (data : string) :
  contents (with_output fs out data) out = Some data.
Proof. unfold contents, with_output. cbn. by rewrite lookup_insert_eq. Qed.

Lemma contents_with_output_ne fs inp out (data : string) :
  inp <> out -> contents (with_output fs out data) inp = contents fs inp.
Proof.
  intros H. unfold contents, with_output. cbn. by rewrite lookup_insert_ne.
Qed.

(** With distinct paths the parser reads the bytes of the input file. *)
Lemma seen_distinct fs inp out (text : string) :
  inp <> out -> contents fs inp = Some text -> seen fs inp out = text.
Proof.
  intros Hne Hc. unfold seen. by rewrite contents_with_output_ne, Hc.
Qed.

(** A failure of the parser on what it reads from the input handle. *)
Lemma parse_failure_keeps_partial_output argv args fs inp out (msg : string) :
  OptParse.parse_args argv = OptParse.Parsed args ->
  argv !! 1%nat = Some inp -> argv !! 2%nat = Some out ->
  readable fs inp = true -> writable fs out = true ->
  stream_error (parsed fs inp out) = Some msg ->
  outcome (run argv fs) = Raise (ValueError msg) /\
  status (run argv fs) = 1 /\
  contents (disk (run argv fs)) out
  = Some (GFF.header +:+ recs_text (stream_records (parsed fs inp out))).
Proof.
  intros Hargs Hin Hout Hr Hw Hs.
  pose proof (run_conversion argv args fs inp out Hargs Hin Hout Hr Hw) as Hrun.
  cbv zeta in Hrun. unfold status, disk. rewrite Hrun. cbn.
  rewrite (stream_outcome_raise _ _ Hs), contents_with_output. by cbn.
Qed.

(** C5, as amended.  When the parser fails on the bytes of the input file
    and the output is another file than the input, the script fails with
    the parser's exception, of the ParseError kind, and exit status 1.
    Nothing is cleaned up: the output file holds the header and the rows
    of the records that came before the failure, and the input file keeps
    its bytes. *)
Theorem malformed_input_keeps_partial_output
    argv args fs inp out (text msg : string) :
  OptParse.parse_args argv = OptParse.Parsed args ->
  argv !! 1%nat = Some inp -> argv !! 2%nat = Some out ->
  readable fs inp = true -> writable fs out = true ->
  inp <> out ->
  contents fs inp = Some text ->
  stream_error (genbank_parse text) = Some msg ->
  outcome (run argv fs) = Raise (ValueError msg) /\
  kind_of (ValueError msg) = Some ParseError /\
  status (run argv fs) = 1 /\
  contents (disk (run argv fs)) out
  = Some (GFF.header +:+ recs_text (stream_records (genbank_parse text))) /\
  contents (disk (run argv fs)) inp = Some text.
Proof.
  intros Hargs Hin Hout Hr Hw Hne Htext Hs.
  assert (Hp : parsed fs inp out = genbank_parse text).
  { unfold parsed. by rewrite (seen_distinct fs inp out text). }
  rewrite <- Hp in Hs.
  destruct (parse_failure_keeps_partial_output argv args fs inp out msg)
    as (Hout' & Hstatus & Hc); auto.
  rewrite Hp in Hc. repeat split; try done.
  pose proof (run_conversion argv args fs inp out Hargs Hin Hout Hr Hw) as Hrun.
  cbv zeta in Hrun. unfold disk. rewrite Hrun. cbn [final p_fs].
  by rewrite contents_with_output_ne.
Qed.

(** C10.  When the parser finds no record in the input, the script ends
    without a failure, with exit status 0 and both handles closed; the
    output file exists and holds the GFF header alone, which has no
    feature row. *)
Theorem empty_input_gives_header_only argv args fs inp out :
  OptParse.parse_args argv = OptParse.Parsed args ->
  argv !! 1%nat = Some inp -> argv !! 2%nat = Some out ->
  readable fs inp = true -> writable fs out = true ->
  parsed fs inp out = Done ->
  outcome (run argv fs) = Ok tt /\
  status (run argv fs) = 0 /\
  all_closed (at_exit (run argv fs)) /\
  contents (disk (run argv fs)) out = Some GFF.header /\
  GFF.seqids GFF.header = [].
Proof.
  intros Hargs Hin Hout Hr Hw Hs.
  pose proof (run_conversion argv args fs inp out Hargs Hin Hout Hr Hw) as Hrun.
  cbv zeta in Hrun. unfold status, disk. rewrite Hrun, Hs. cbn.
  rewrite contents_with_output. unfold gff_text, all_closed. cbn.
  rewrite str_app_nil_r. by repeat split; repeat constructor.
Qed.

(** *** The identifier column of the output *)

Lemma seqids_rows (id : string) (rows : list gff_row) (rest : string) :
  GFF.seqid_ok id = true -> forallb GFF.row_ok rows = true ->
  GFF.seqids (foldr (fun row acc => GFF.render id row +:+ acc) "" rows +:+ rest)
  = replicate (length (filter (fun row => Is_true (GFF.is_feature row)) rows)) id
    ++ GFF.seqids rest.
Proof.
  intros Hid. induction rows as [|row rows IH]; intros Hrows.
  - by rewrite str_app_nil_l.
  - cbn [forallb] in Hrows. apply andb_true_iff in Hrows as [Hrow Hrows].
    cbn [foldr]. rewrite str_app_assoc, seqids_render, IH by done.
    rewrite filter_cons. destruct (GFF.is_feature row); by case_decide.
Qed.

Lemma seqids_recs (rs : list record) (rest : string) :
  forallb rec_ok rs = true ->
  GFF.seqids (recs_text rs +:+ rest) = recs_seqids rs ++ GFF.seqids rest.
Proof.
  induction rs as [|r rs IH]; intros Hrs.
  - by rewrite str_app_nil_l.
  - cbn [forallb] in Hrs. apply andb_true_iff in Hrs as [Hr Hrs].
    unfold rec_ok in Hr. apply andb_true_iff in Hr as [Hid Hrows].
    unfold recs_text, recs_seqids. cbn [foldr map concat].
    fold (recs_text rs). fold (recs_seqids rs).
    unfold rec_text at 1. rewrite str_app_assoc, seqids_rows, IH by done.
    unfold rec_seqids. by rewrite app_assoc.
Qed.

Lemma lines_seqids_header (rest : string) :
  GFF.seqids ("##gff-version 3" +:+ Str.NL +:+ rest) = GFF.seqids rest.
Proof. unfold GFF.seqids. by rewrite lines_cons. Qed.

Lemma seqids_gff_text (s : stream record) :
  forallb rec_ok (stream_records s) = true ->
  GFF.seqids (gff_text s) = recs_seqids (stream_records s).
Proof.
  intros Hs. unfold gff_text, GFF.header.
  rewrite <- (str_app_nil_r (recs_text _)).
  rewrite str_app_assoc, lines_seqids_header, seqids_recs by done.
  by rewrite app_nil_r.
Qed.

Lemma output_follows_input_order_aux argv args fs inp out :
  OptParse.parse_args argv = OptParse.Parsed args ->
  argv !! 1%nat = Some inp -> argv !! 2%nat = Some out ->
  readable fs inp = true -> writable fs out = true ->
  forallb rec_ok (stream_records (parsed fs inp out)) = true ->
  contents (disk (run argv fs)) out = Some (gff_text (parsed fs inp out)) /\
  GFF.seqids (gff_text (parsed fs inp out))
  = recs_seqids (stream_records (parsed fs inp out)).
Proof.
  intros Hargs Hin Hout Hr Hw Hok.
  pose proof (run_conversion argv args fs inp out Hargs Hin Hout Hr Hw) as Hrun.
  cbv zeta in Hrun. unfold disk. rewrite Hrun. cbn [final p_fs].
  split; [apply contents_with_output|by apply seqids_gff_text].
Qed.

(** C3.  When the input parses and its records can be written as GFF, the
    output file holds the header followed by the text of each record in
    the order of the input, and the identifier column of the output, read
    from top to bottom, is the identifier of the first record on each of
    its rows, then that of the second record, and so on. *)
Theorem output_follows_input_order argv args fs inp out :
  OptParse.parse_args argv = OptParse.Parsed args ->
  argv !! 1%nat = Some inp -> argv !! 2%nat = Some out ->
  readable fs inp = true -> writable fs out = true ->
  stream_error (parsed fs inp out) = None ->
  forallb rec_ok (stream_records (parsed fs inp out)) = true ->
  exists text,
    contents (disk (run argv fs)) out = Some text /\
    text = GFF.header +:+ recs_text (stream_records (parsed fs inp out)) /\
    GFF.seqids text = recs_seqids (stream_records (parsed fs inp out)).
Proof.
  intros Hargs Hin Hout Hr Hw Hs Hok.
  pose proof (run_conversion argv args fs inp out Hargs Hin Hout Hr Hw) as Hrun.
  cbv zeta in Hrun. unfold disk. rewrite Hrun. cbn [final p_fs].
  eexists. split; [apply contents_with_output|]. split; [done|].
  by apply seqids_gff_text.
Qed.

Lemma elem_of_recs_seqids (rs : list record) (id : string) :
  forallb rec_has_feature rs = true ->
  id ∈ recs_seqids rs <-> id ∈ map rec_id rs.
Proof.
  induction rs as [|r rs IH]; intros Hrs; [done|].
  cbn [forallb] in Hrs. apply andb_true_iff in Hrs as [Hr Hrs].
  unfold recs_seqids. cbn [map concat]. fold (recs_seqids rs).
  rewrite elem_of_app, elem_of_cons, IH by done.
  unfold rec_seqids. rewrite elem_of_replicate.
  assert (length (filter (fun row => Is_true (GFF.is_feature row)) (rec_rows r))
          <> 0%nat) as Hn.
  { unfold rec_has_feature in Hr. apply existsb_exists in Hr as (row & Hin & Hrow).
    intros Hlen%length_zero_iff_nil.
    assert (row ∈ filter (fun row => Is_true (GFF.is_feature row)) (rec_rows r)) as H.
    { apply list_elem_of_filter. split; [by rewrite Hrow|by apply list_elem_of_In]. }
    rewrite Hlen in H. by apply not_elem_of_nil in H. }
  split.
  - intros [[-> _]|Hid]; [by left|by right].
  - intros [->|Hid]; [by left|by right].
Qed.

(** C4, as amended.  When the bytes of the input file parse, the output is
    another file than the input, the records can be written as GFF and
    each of them has a feature row, the output holds the text of every
    record once, in the order of the input, and its feature rows carry
    exactly the identifiers of the records: as many distinct identifiers
    as the records carry, which is the number of records when their
    identifiers are pairwise distinct. *)
Theorem output_covers_every_record argv args fs inp out (text : string) :
  OptParse.parse_args argv = OptParse.Parsed args ->
  argv !! 1%nat = Some inp -> argv !! 2%nat = Some out ->
  readable fs inp = true -> writable fs out = true ->
  inp <> out ->
  contents fs inp = Some text ->
  stream_error (genbank_parse text) = None ->
  forallb rec_ok (stream_records (genbank_parse text)) = true ->
  forallb rec_has_feature (stream_records (genbank_parse text)) = true ->
  exists gff,
    contents (disk (run argv fs)) out = Some gff /\
    gff = GFF.header +:+ recs_text (stream_records (genbank_parse text)) /\
    (forall id, id ∈ GFF.seqids gff
                <-> id ∈ map rec_id (stream_records (genbank_parse text))) /\
    distinct_seqids gff
    = length (remove_dups (map rec_id (stream_records (genbank_parse text)))) /\
    (NoDup (map rec_id (stream_records (genbank_parse text))) ->
     distinct_seqids gff = length (stream_records (genbank_parse text))).
Proof.
  intros Hargs Hin Hout Hr Hw Hne Htext Hs Hok Hfeat.
  assert (Hp : parsed fs inp out = genbank_parse text).
  { unfold parsed. by rewrite (seen_distinct fs inp out text). }
  rewrite <- Hp in *.
  destruct (output_follows_input_order_aux argv args fs inp out)
    as (Hc & Hids); auto.
  eexists. split; [exact Hc|]. split; [done|].
  assert (Hmem : forall id,
    id ∈ GFF.seqids (gff_text (parsed fs inp out))
    <-> id ∈ map rec_id (stream_records (parsed fs inp out))).
  { intros id. rewrite Hids. by apply elem_of_recs_seqids. }
  split; [exact Hmem|].
  assert (Hcount : distinct_seqids (gff_text (parsed fs inp out))
    = length (remove_dups (map rec_id (stream_records (parsed fs inp out))))).
  { unfold distinct_seqids.
    apply Permutation_length, NoDup_Permutation.
    - apply NoDup_remove_dups.
    - apply NoDup_remove_dups.
    - intros id. by rewrite !elem_of_remove_dups. }
  split; [exact Hcount|].
  intros Hnodup. rewrite Hcount, <- (length_map rec_id (stream_records _)).
  apply Permutation_length, NoDup_Permutation.
  - apply NoDup_remove_dups.
  - done.
  - intros id. by rewrite elem_of_remove_dups.
Qed.

(** *** Running the script again *)

Lemma readable_with_output fs inp out (data : string) :
  readable fs inp = true -> readable (with_output fs out data) inp = true.
Proof.
  unfold readable, with_output, output_file. cbn.
  destruct (decide (out = inp)) as [->|Hne].
  - rewrite lookup_insert_eq. cbn. by destruct (fs_files fs !! inp).
  - by rewrite lookup_insert_ne.
Qed.

Lemma writable_with_output fs out (data : string) :
  writable (with_output fs out data) out = true.
Proof. unfold writable, with_output. cbn. by rewrite lookup_insert_eq. Qed.

Lemma parsed_with_output fs inp out (data : string) :
  parsed (with_output fs out data) inp out = parsed fs inp out.
Proof. unfold parsed, seen. by rewrite with_output_twice. Qed.

(** A second run on the file system the first run left behind is the first
    run over again. *)
Lemma run_again argv fs : run argv (disk (run argv fs)) = run argv fs.
Proof.
  destruct (run_path argv fs)
    as [a so code _ Hrun|args _ _ Hrun|args inp out e _ _ _ _ _ Hrun
       |args inp out e _ _ _ _ _ _ Hrun
       |args inp out s trace closed Hargs Hin Hout Hr Hw Hs Htrace Hclosed Hrun];
    unfold disk; rewrite Hrun; cbn [final p_fs start]; try (by rewrite Hrun).
  subst closed. cbn [p_fs].
  rewrite (run_conversion argv args _ inp out Hargs Hin Hout
             (readable_with_output _ _ _ _ Hr) (writable_with_output _ _ _)).
  cbv zeta. rewrite parsed_with_output, !with_output_twice. by subst.
Qed.

(** C6.  Running the script a second time, on the same command line and on
    the file system the first run left behind, leaves every file with the
    bytes it had after the first run, and ends with the same status. *)
Theorem second_run_is_identical argv fs (path : string) :
  let first := run argv fs in
  let second := run argv (disk first) in
  contents (disk second) path = contents (disk first) path /\
  disk second = disk first /\
  status second = status first.
Proof. cbv zeta. by rewrite run_again. Qed.

End Claims.

(** * The claims on concrete runs *)

Ltac run_it := vm_compute; reflexivity.



Lemma missing_input_fails_witness :
  status (run (L:=Mini.lib) Mini.argv (Mini.fs_of [])) = 1 /\
  disk (run (L:=Mini.lib) Mini.argv (Mini.fs_of [])) = Mini.fs_of [].
Proof.
  destruct (missing_input_fails (L:=Mini.lib) Mini.argv ["in.gb"; "out.gff"]
              (Mini.fs_of []) "in.gb" "out.gff") as (_ & Hstatus & Hdisk & _);
    [run_it..|].
  by split.
Defined.

Lemma output_untouched_when_input_fails_witness :
  let fs := Mini.fs_of [("out.gff", Mini.plain "kept")] in
  contents (disk (run (L:=Mini.lib) Mini.argv fs)) "out.gff" = Some "kept".
Proof.
  cbv zeta.
  destruct (output_untouched_when_input_fails (L:=Mini.lib) Mini.argv
              (Mini.fs_of [("out.gff", Mini.plain "kept")])) as [_ H].
  destruct (H "in.gb" "out.gff") as (_ & _ & ->); run_it.
Defined.

(** C7 as stated fails.  With the version flag alone there is no positional
    argument and the program ends with status 0.  With [in.gb --] the
    option parser takes [--] for the end of the options and returns one
    positional argument; the script reads [sys.argv], converts [in.gb] and
    writes the result to a file named [--]. *)
Lemma fewer_than_two_positionals_without_failure :
  let fs := Mini.only_input Mini.two_records in
  (let rr := run (L:=Mini.lib) ["genbank2gff.py"; "--version"] fs in
   outcome rr = Raise (SystemExit 0) /\ status rr = 0) /\
  (let argv := ["genbank2gff.py"; "in.gb"; "--"] in
   let rr := run (L:=Mini.lib) argv fs in
   OptParse.parse_args argv = OptParse.Parsed ["in.gb"] /\
   outcome rr = Ok tt /\
   status rr = 0 /\
   take 2 (p_trace (final rr)) = [EvOpen "in.gb" Rd 0; EvOpen "--" Wr 1] /\
   GFF.seqids (default "" (contents (disk rr) "--")) = ["SEQ1"; "SEQ2"]).
Proof. cbv zeta. repeat split; run_it. Qed.

Lemma short_command_line_opens_nothing_witness :
  let rr := run (L:=Mini.lib) ["genbank2gff.py"; "in.gb"]
                (Mini.only_input Mini.two_records) in
  p_trace (final rr) = [] /\ outcome rr = Raise IndexError /\ status rr = 1.
Proof.
  cbv zeta.
  destruct (short_command_line_opens_nothing (L:=Mini.lib)
              ["genbank2gff.py"; "in.gb"] (Mini.only_input Mini.two_records))
    as (Htrace & _ & _ & H); [cbn; lia|].
  change (OptParse.parse_args ["genbank2gff.py"; "in.gb"])
    with (OptParse.Parsed ["in.gb"]) in H.
  destruct H as (Hout & _ & Hstatus). by repeat split.
Defined.

Lemma version_flag_prints_and_exits_witness :
  let rr := run (L:=Mini.lib) ["genbank2gff.py"; "in.gb"; "--version"; "out.gff"]
                (Mini.only_input Mini.two_records) in
  status rr = 0 /\ p_stdout (final rr) = "0.1" +:+ Str.NL /\ disk rr = Mini.only_input Mini.two_records.
Proof.
  cbv zeta.
  destruct (version_flag_prints_and_exits (L:=Mini.lib) "genbank2gff.py"
              ["in.gb"] ["out.gff"] (Mini.only_input Mini.two_records))
    as (_ & Hstatus & Hout & _ & Hdisk); [run_it|].
  by repeat split.
Defined.

(** C5 as stated fails.  The file is named as input and as output: its
    bytes are an entry followed by one that is cut off, which the parser
    rejects, but the file is truncated before it is read, the parser finds
    nothing in it and the script ends with status 0 and a file that holds
    the header alone. *)
Lemma malformed_input_overwritten_without_failure :
  let fs := Mini.only_input Mini.cut_off in
  let rr := run (L:=Mini.lib) ["genbank2gff.py"; "in.gb"; "in.gb"] fs in
  contents fs "in.gb" = Some Mini.cut_off /\
  stream_error (genbank_parse (Library:=Mini.lib) Mini.cut_off)
  = Some "Premature end of file" /\
  outcome rr = Ok tt /\
  status rr = 0 /\
  contents (disk rr) "in.gb" = Some GFF.header.
Proof. cbv zeta. repeat split; run_it. Qed.

Lemma malformed_input_keeps_partial_output_witness :
  let rr := run (L:=Mini.lib) Mini.argv (Mini.only_input Mini.cut_off) in
  outcome rr = Raise (ValueError "Premature end of file") /\
  status rr = 1 /\
  GFF.seqids (default "" (contents (disk rr) "out.gff")) = ["SEQ1"] /\
  contents (disk rr) "in.gb" = Some Mini.cut_off.
Proof.
  cbv zeta.
  destruct (malformed_input_keeps_partial_output (L:=Mini.lib) Mini.argv
              ["in.gb"; "out.gff"] (Mini.only_input Mini.cut_off)
              "in.gb" "out.gff" Mini.cut_off "Premature end of file")
    as (Hout & _ & Hstatus & -> & Hin); [run_it..|discriminate|run_it|run_it|].
  split; [exact Hout|]. split; [exact Hstatus|]. split; [run_it|exact Hin].
Defined.

Lemma empty_input_gives_header_only_witness :
  let rr := run (L:=Mini.lib) Mini.argv (Mini.only_input "") in
  status rr = 0 /\ contents (disk rr) "out.gff" = Some GFF.header.
Proof.
  cbv zeta.
  destruct (empty_input_gives_header_only (L:=Mini.lib) Mini.argv
              ["in.gb"; "out.gff"] (Mini.only_input "") "in.gb" "out.gff")
    as (_ & Hstatus & _ & Hc & _); [run_it..|].
  by split.
Defined.

Lemma output_follows_input_order_witness :
  exists text,
    contents (disk (run (L:=Mini.lib) Mini.argv (Mini.only_input Mini.two_records)))
             "out.gff" = Some text /\
    GFF.seqids text = ["SEQ1"; "SEQ2"].
Proof.
  destruct (output_follows_input_order (L:=Mini.lib) Mini.argv
              ["in.gb"; "out.gff"] (Mini.only_input Mini.two_records)
              "in.gb" "out.gff")
    as (text & Hc & _ & Hids); [run_it..|].
  exists text. split; [done|]. rewrite Hids. run_it.
Defined.

(** C4 as stated fails.  The input holds two entries under one accession:
    it parses into two records, both are written, and the feature rows of
    the output carry one identifier, not two. *)
Lemma same_identifier_twice_counts_once :
  let fs := Mini.only_input Mini.one_accession_twice in
  let rr := run (L:=Mini.lib) Mini.argv fs in
  stream_error (genbank_parse (Library:=Mini.lib) Mini.one_accession_twice) = None /\
  length (stream_records (genbank_parse (Library:=Mini.lib) Mini.one_accession_twice))
  = 2%nat /\
  outcome rr = Ok tt /\
  GFF.seqids (default "" (contents (disk rr) "out.gff")) = ["SEQ1"; "SEQ1"] /\
  distinct_seqids (default "" (contents (disk rr) "out.gff")) = 1%nat.
Proof. cbv zeta. repeat split; run_it. Qed.

Lemma output_covers_every_record_witness :
  exists gff,
    contents (disk (run (L:=Mini.lib) Mini.argv
                        (Mini.only_input (Mini.entry "SEQ1" +:+ Mini.entry "SEQ2"))))
             "out.gff" = Some gff /\
    GFF.seqids gff = ["SEQ1"; "SEQ2"] /\
    distinct_seqids gff = 2%nat.
Proof.
  destruct (output_covers_every_record (L:=Mini.lib) Mini.argv
              ["in.gb"; "out.gff"]
              (Mini.only_input (Mini.entry "SEQ1" +:+ Mini.entry "SEQ2"))
              "in.gb" "out.gff" (Mini.entry "SEQ1" +:+ Mini.entry "SEQ2"))
    as (gff & Hc & -> & _ & _ & Hn); [run_it..|discriminate|run_it|run_it|run_it|run_it|].
  eexists. split; [exact Hc|]. split; [run_it|].
  rewrite Hn; [run_it|].
  apply (bool_decide_unpack (NoDup _)). vm_compute. exact I.
Defined.

(** * Further properties of the script *)

Section Further.

Context {L : Library}.

Implicit Types (argv args : list string) (fs : filesystem) (inp out : string).

Lemma exit_status_io (e : exn) :
  kind_of e = Some IOError -> exit_status (Raise e) = 1.
Proof. destruct e; try done. cbn. by case_decide. Qed.

(** X1.  Once the option parser returns, a run depends on the command line only
    through [sys.argv[1]] and [sys.argv[2]]: the program name and any
    further words are ignored. *)
Theorem run_reads_two_words_only argv argv' args args' fs :
  OptParse.parse_args argv = OptParse.Parsed args ->
  OptParse.parse_args argv' = OptParse.Parsed args' ->
  argv !! 1%nat = argv' !! 1%nat ->
  argv !! 2%nat = argv' !! 2%nat ->
  run argv fs = run argv' fs.
Proof.
  intros Hargs Hargs' H1 H2.
  unfold run, main, parse_args, argv_item. rewrite Hargs, Hargs', H1, H2.
  reflexivity.
Qed.

(** X2.  The paths are taken from [sys.argv], not from the arguments the option
    parser returns.  With [--] as the first word the option parser returns
    the words after it, yet the script reads the file named [--] and
    overwrites the file named by the first positional argument. *)
Theorem end_of_options_marker_is_taken_for_the_input
    (prog : string) inp out (rest : list string) fs :
  readable fs "--" = true -> writable fs inp = true ->
  let argv := prog :: "--" :: inp :: out :: rest in
  OptParse.parse_args argv = OptParse.Parsed (inp :: out :: rest) /\
  outcome (run argv fs) = stream_outcome (parsed fs "--" inp) /\
  contents (disk (run argv fs)) inp = Some (gff_text (parsed fs "--" inp)) /\
  (out <> inp -> contents (disk (run argv fs)) out = contents fs out).
Proof.
  intros Hr Hw argv.
  assert (Hargs : OptParse.parse_args argv = OptParse.Parsed (inp :: out :: rest))
    by reflexivity.
  split; [done|].
  pose proof (run_conversion argv _ fs "--" inp Hargs eq_refl eq_refl Hr Hw) as Hrun.
  cbv zeta in Hrun. unfold disk. rewrite Hrun. cbn [outcome final p_fs].
  split; [done|]. split; [apply contents_with_output|].
  intros Hne. by apply contents_with_output_ne.
Qed.

(** X3.  A run changes no file other than the one that [sys.argv[2]] names
    (a path being the canonical name of its file): every other file keeps
    its bytes and permissions, no other file is created, and where files
    can be created does not change. *)
Theorem run_changes_the_output_file_only argv fs (path : string) :
  argv !! 2%nat <> Some path ->
  fs_files (disk (run argv fs)) !! path = fs_files fs !! path /\
  fs_nocreate (disk (run argv fs)) = fs_nocreate fs.
Proof.
  intros Hpath.
  destruct (run_path argv fs)
    as [a so code _ Hrun|args _ _ Hrun|args inp out e _ _ _ _ _ Hrun
       |args inp out e _ _ _ _ _ _ Hrun
       |args inp out s trace closed _ _ Hout _ _ _ _ Hclosed Hrun];
    unfold disk; rewrite Hrun; cbn [final p_fs start]; try done.
  subst closed. cbn. split; [|done].
  apply lookup_insert_ne. congruence.
Qed.

(** X4.  When input and output are the same path, the file is truncated before
    the parser reads it: the parser sees an empty file and what the file
    held is lost. *)
Theorem same_path_loses_the_input argv args fs (p : string) :
  OptParse.parse_args argv = OptParse.Parsed args ->
  argv !! 1%nat = Some p -> argv !! 2%nat = Some p ->
  readable fs p = true -> writable fs p = true ->
  outcome (run argv fs) = stream_outcome (genbank_parse "") /\
  contents (disk (run argv fs)) p = Some (gff_text (genbank_parse "")).
Proof.
  intros Hargs Hin Hout Hr Hw.
  pose proof (run_conversion argv args fs p p Hargs Hin Hout Hr Hw) as Hrun.
  cbv zeta in Hrun. unfold disk. rewrite Hrun. cbn [outcome final p_fs].
  assert (parsed fs p p = genbank_parse "") as ->.
  { unfold parsed, seen. by rewrite contents_with_output. }
  split; [done|apply contents_with_output].
Qed.

(** X5.  When the input opens and the output cannot be opened for writing, the
    script fails with an exception of the IOError kind and status 1, the
    file system is left as it was, and the input handle is still open when
    the script ends: nothing has been read or written. *)
Theorem unwritable_output_fails argv args fs inp out :
  OptParse.parse_args argv = OptParse.Parsed args ->
  argv !! 1%nat = Some inp -> argv !! 2%nat = Some out ->
  readable fs inp = true -> writable fs out = false ->
  (exists e, outcome (run argv fs) = Raise e /\ kind_of e = Some IOError) /\
  status (run argv fs) = 1 /\
  disk (run argv fs) = fs /\
  p_handles (at_exit (run argv fs)) = [Handle inp Rd "" false] /\
  p_trace (at_exit (run argv fs)) = [EvOpen inp Rd 0; EvOpenFailed out Wr].
Proof.
  intros Hargs Hin Hout Hr Hw.
  destruct (run_unwritable argv args fs inp out) as (e & He & Hrun); auto.
  unfold status, disk. rewrite Hrun. cbn [outcome at_exit final p_fs p_handles p_trace].
  split; [eauto|]. by rewrite exit_status_io.
Qed.

(** X6.  When the output is another file than the input (paths being the
    canonical names of their files), the output is a function of the bytes
    of the input file alone: the header and the rows of the records the
    parser yields from them.  What the output file held before is gone,
    and the input file keeps its bytes. *)
Theorem output_is_a_function_of_the_input argv args fs inp out (text : string) :
  OptParse.parse_args argv = OptParse.Parsed args ->
  argv !! 1%nat = Some inp -> argv !! 2%nat = Some out ->
  readable fs inp = true -> writable fs out = true ->
  inp <> out -> contents fs inp = Some text ->
  contents (disk (run argv fs)) out
  = Some (GFF.header +:+ recs_text (stream_records (genbank_parse text))) /\
  contents (disk (run argv fs)) inp = Some text.
Proof.
  intros Hargs Hin Hout Hr Hw Hne Htext.
  pose proof (run_conversion argv args fs inp out Hargs Hin Hout Hr Hw) as Hrun.
  cbv zeta in Hrun. unfold disk. rewrite Hrun. cbn [final p_fs].
  rewrite contents_with_output, contents_with_output_ne by done.
  unfold parsed. by rewrite (seen_distinct fs inp out text).
Qed.

(** X7.  Exit status 0 after the option parser has returned means a complete
    conversion: both paths were given, the parser did not fail, the output
    file holds the whole GFF text and the script has closed both handles. *)
Theorem status_zero_means_complete_output argv args fs :
  OptParse.parse_args argv = OptParse.Parsed args ->
  status (run argv fs) = 0 ->
  exists inp out,
    argv !! 1%nat = Some inp /\ argv !! 2%nat = Some out /\
    stream_error (parsed fs inp out) = None /\
    contents (disk (run argv fs)) out = Some (gff_text (parsed fs inp out)) /\
    all_closed (at_exit (run argv fs)).
Proof.
  intros Hargs.
  destruct (run_path argv fs)
    as [a so code Hstop Hrun|args' _ _ Hrun|args' inp out e _ _ _ _ He Hrun
       |args' inp out e _ _ _ _ _ He Hrun
       |args' inp out s trace closed _ Hin Hout _ _ Hs _ Hclosed Hrun];
    unfold status, disk; rewrite Hrun; cbn [outcome final at_exit p_fs].
  - congruence.
  - done.
  - by rewrite exit_status_io.
  - by rewrite exit_status_io.
  - unfold stream_outcome. destruct (stream_error s) as [msg|] eqn:Es; [done|].
    intros _. exists inp, out. subst closed s. cbn [p_fs].
    rewrite contents_with_output. repeat split; try done.
    unfold all_closed. by repeat constructor.
Qed.

(** X8.  The script itself prints nothing: standard output stays empty unless
    the option parser ends the program. *)
Theorem conversion_prints_nothing argv args fs :
  OptParse.parse_args argv = OptParse.Parsed args ->
  p_stdout (final (run argv fs)) = "".
Proof.
  intros Hargs.
  destruct (run_path argv fs)
    as [a so code Hstop Hrun|args' _ _ Hrun|args' inp out e _ _ _ _ He Hrun
       |args' inp out e _ _ _ _ _ He Hrun
       |args' inp out s trace closed _ Hin Hout _ _ Hs _ Hclosed Hrun];
    rewrite Hrun; cbn [final]; try done.
  - congruence.
  - by subst closed.
Qed.

(** X9.  With [-h] or [--help] as the first option on the command line, the
    script prints optparse's help text for the program name and exits with
    status 0; no file is opened, whatever paths the command line gives. *)
Theorem help_flag_prints_and_exits
    (prog flag : string) (pre rest : list string) fs :
  flag = "-h" \/ flag = "--help" ->
  forallb OptParse.positional pre = true ->
  let rr := run (prog :: pre ++ flag :: rest) fs in
  outcome rr = Raise (SystemExit 0) /\
  status rr = 0 /\
  p_stdout (final rr) = help_text prog /\
  p_trace (final rr) = [] /\
  disk rr = fs.
Proof.
  intros Hflag Hpre rr.
  assert (Hargs : OptParse.parse_args (prog :: pre ++ flag :: rest)
                  = OptParse.Stop OptParse.Help).
  { unfold OptParse.parse_args.
    change (drop 1 (prog :: pre ++ flag :: rest)) with (pre ++ flag :: rest).
    rewrite process_args_positional by done. by destruct Hflag as [-> | ->]. }
  unfold rr, status, disk, run, main, parse_args. rewrite Hargs. by cbn.
Qed.

(** X10.  A short option other than [-h], anywhere before the first option, is a
    usage error: the program exits with status 2, prints nothing on
    standard output and opens no file, even when both paths are given. *)
Theorem unknown_short_option_is_a_usage_error
    (prog tail : string) (ch : ascii) (pre rest : list string) fs :
  ch <> "h"%char -> ch <> "-"%char ->
  forallb OptParse.positional pre = true ->
  let rr := run (prog :: pre ++ String "-" (String ch tail) :: rest) fs in
  outcome rr = Raise (SystemExit 2) /\
  status rr = 2 /\
  p_stdout (final rr) = "" /\
  p_trace (final rr) = [] /\
  disk rr = fs.
Proof.
  intros Hh Hdash Hpre rr.
  assert (Hargs : exists msg,
    OptParse.parse_args (prog :: pre ++ String "-" (String ch tail) :: rest)
    = OptParse.Stop (OptParse.Usage_error msg)).
  { unfold OptParse.parse_args.
    change (drop 1 (prog :: pre ++ String "-" (String ch tail) :: rest))
      with (pre ++ String "-" (String ch tail) :: rest).
    rewrite process_args_positional by done.
    apply Ascii.eqb_neq in Hh, Hdash.
    cbn [OptParse.process_args String.eqb Str.startswith String.prefix].
    rewrite Ascii.eqb_refl, Hdash.
    destruct (ascii_dec "-" ch) as [<-|_]; [by rewrite Ascii.eqb_refl in Hdash|].
    destruct (ascii_dec "-" "-") as [_|Hne]; [|done].
    cbn. rewrite Hh. eauto. }
  destruct Hargs as [msg Hargs].
  unfold rr, status, disk, run, main, parse_args. rewrite Hargs. by cbn.
Qed.

End Further.

(** * The further properties on concrete runs *)

Lemma run_reads_two_words_only_witness :
  run (L:=Mini.lib) Mini.argv (Mini.only_input Mini.two_records)
  = run (L:=Mini.lib) ["convert"; "in.gb"; "out.gff"; "more"; "-"]
        (Mini.only_input Mini.two_records).
Proof.
  apply (run_reads_two_words_only (L:=Mini.lib) Mini.argv
           ["convert"; "in.gb"; "out.gff"; "more"; "-"]
           ["in.gb"; "out.gff"] ["in.gb"; "out.gff"; "more"; "-"]);
    reflexivity.
Defined.

Lemma end_of_options_marker_is_taken_for_the_input_witness :
  let fs := Mini.fs_of [("--", Mini.plain Mini.two_records);
                        ("in.gb", Mini.plain "LOCUS       KEPT")] in
  GFF.seqids (default ""
    (contents (disk (run (L:=Mini.lib) ["genbank2gff.py"; "--"; "in.gb"; "out.gff"] fs))
              "in.gb"))
  = ["SEQ1"; "SEQ2"].
Proof.
  cbv zeta.
  destruct (end_of_options_marker_is_taken_for_the_input (L:=Mini.lib)
              "genbank2gff.py" "in.gb" "out.gff" []
              (Mini.fs_of [("--", Mini.plain Mini.two_records);
                           ("in.gb", Mini.plain "LOCUS       KEPT")]))
    as (_ & _ & -> & _); run_it.
Defined.

Lemma run_changes_the_output_file_only_witness :
  let fs := Mini.fs_of [("in.gb", Mini.plain Mini.two_records);
                        ("notes.txt", Mini.plain "kept")] in
  fs_files (disk (run (L:=Mini.lib) Mini.argv fs)) !! "notes.txt"
  = Some (Mini.plain "kept").
Proof.
  cbv zeta.
  destruct (run_changes_the_output_file_only (L:=Mini.lib) Mini.argv
              (Mini.fs_of [("in.gb", Mini.plain Mini.two_records);
                           ("notes.txt", Mini.plain "kept")]) "notes.txt")
    as [-> _]; [discriminate|run_it].
Defined.

Lemma same_path_loses_the_input_witness :
  contents (disk (run (L:=Mini.lib) ["genbank2gff.py"; "in.gb"; "in.gb"]
                      (Mini.only_input Mini.two_records))) "in.gb"
  = Some GFF.header.
Proof.
  destruct (same_path_loses_the_input (L:=Mini.lib)
              ["genbank2gff.py"; "in.gb"; "in.gb"] ["in.gb"; "in.gb"]
              (Mini.only_input Mini.two_records) "in.gb")
    as [_ ->]; run_it.
Defined.

Lemma unwritable_output_fails_witness :
  let fs := Mini.fs_of [("in.gb", Mini.plain Mini.two_records);
                        ("out.gff", File "locked" true false)] in
  status (run (L:=Mini.lib) Mini.argv fs) = 1 /\
  disk (run (L:=Mini.lib) Mini.argv fs) = fs /\
  p_handles (at_exit (run (L:=Mini.lib) Mini.argv fs)) = [Handle "in.gb" Rd "" false].
Proof.
  cbv zeta.
  destruct (unwritable_output_fails (L:=Mini.lib) Mini.argv ["in.gb"; "out.gff"]
              (Mini.fs_of [("in.gb", Mini.plain Mini.two_records);
                           ("out.gff", File "locked" true false)])
              "in.gb" "out.gff")
    as (_ & Hstatus & Hdisk & Hh & _); [run_it..|].
  by repeat split.
Defined.

Lemma output_is_a_function_of_the_input_witness :
  let fs := Mini.fs_of [("in.gb", Mini.plain Mini.two_records);
                        ("out.gff", Mini.plain "old bytes")] in
  GFF.seqids (default "" (contents (disk (run (L:=Mini.lib) Mini.argv fs)) "out.gff"))
  = ["SEQ1"; "SEQ2"] /\
  contents (disk (run (L:=Mini.lib) Mini.argv fs)) "in.gb" = Some Mini.two_records.
Proof.
  cbv zeta.
  destruct (output_is_a_function_of_the_input (L:=Mini.lib) Mini.argv
              ["in.gb"; "out.gff"]
              (Mini.fs_of [("in.gb", Mini.plain Mini.two_records);
                           ("out.gff", Mini.plain "old bytes")])
              "in.gb" "out.gff" Mini.two_records)
    as [-> ->]; [run_it..|discriminate|run_it|].
  split; [run_it|done].
Defined.

Lemma status_zero_means_complete_output_witness :
  exists inp out,
    Mini.argv !! 1%nat = Some inp /\ Mini.argv !! 2%nat = Some out /\
    all_closed (at_exit (run (L:=Mini.lib) Mini.argv (Mini.only_input Mini.two_records))).
Proof.
  destruct (status_zero_means_complete_output (L:=Mini.lib) Mini.argv
              ["in.gb"; "out.gff"] (Mini.only_input Mini.two_records))
    as (inp & out & Hin & Hout & _ & _ & Hclosed); [run_it..|].
  by exists inp, out.
Defined.

Lemma conversion_prints_nothing_witness :
  p_stdout (final (run (L:=Mini.lib) Mini.argv (Mini.only_input Mini.truncated))) = "".
Proof.
  apply (conversion_prints_nothing (L:=Mini.lib) Mini.argv ["in.gb"; "out.gff"]).
  run_it.
Defined.

Lemma help_flag_prints_and_exits_witness :
  let rr := run (L:=Mini.lib) ["genbank2gff.py"; "in.gb"; "out.gff"; "--help"]
                (Mini.only_input Mini.two_records) in
  status rr = 0 /\ p_trace (final rr) = [] /\
  disk rr = Mini.only_input Mini.two_records.
Proof.
  cbv zeta.
  destruct (help_flag_prints_and_exits (L:=Mini.lib) "genbank2gff.py" "--help"
              ["in.gb"; "out.gff"] [] (Mini.only_input Mini.two_records))
    as (_ & Hstatus & _ & Htrace & Hdisk); [by right|run_it|].
  by repeat split.
Defined.

Lemma unknown_short_option_is_a_usage_error_witness :
  let rr := run (L:=Mini.lib) ["genbank2gff.py"; "in.gb"; "-x"; "out.gff"]
                (Mini.only_input Mini.two_records) in
  status rr = 2 /\ p_trace (final rr) = [] /\
  disk rr = Mini.only_input Mini.two_records.
Proof.
  cbv zeta.
  destruct (unknown_short_option_is_a_usage_error (L:=Mini.lib) "genbank2gff.py"
              "" "x"%char ["in.gb"] ["out.gff"] (Mini.only_input Mini.two_records))
    as (_ & Hstatus & _ & Htrace & Hdisk); [discriminate..|run_it|].
  by repeat split.
Defined.
